(** * zig-wasix: the WASI socket shim ([bind]) and the fork lock registry

    Shallow embedding of
    - [lib/libc/wasi/libc-bottom-half/cloudlibc/src/libc/sys/socket/bind.c]
    - [lib/libc/wasi/libc-top-half/musl/src/internal/fork_impl.h]

    C integers are [Z] with their conversions written out; caller buffers
    are [list byte]; the process state that [bind] threads (errno, the host
    behind the capability boundary) is passed explicitly.

    Part I holds the model, Part II the theorems. *)

From Stdlib Require Import ZArith List Lia Bool.
From Stdlib.Strings Require Import Byte.
Import ListNotations.
Open Scope Z_scope.

(* ===================================================================== *)
(** * Part I: the model                                                   *)
(* ===================================================================== *)

(** ** C integer types used by bind.c *)

Module CInt.

(** [__wasi_errno_t] is a 16-bit unsigned integer ([wasi/api.h]). *)
Definition is_u16 (z : Z) : Prop := 0 <= z < 65536.

(** [int]: 32-bit two's complement. *)
Definition is_int (z : Z) : Prop := -2147483648 <= z < 2147483648.

(** Conversion of an integer value to [int] (wrap-around). *)
Definition int_of (z : Z) : Z := (z + 2147483648) mod 4294967296 - 2147483648.

End CInt.

(** ** Error Taxonomy Mapper, as bind.c performs it *)

Module Errno.
Import CInt.

(** bind.c:14 and bind.c:20, [errno = error;]: the host code, a
    [__wasi_errno_t], is stored into the [int] lvalue [errno].  The
    mapping is the integer conversion and nothing else: there is no
    table and no default branch. *)
Definition to_errno (error : Z) : Z := int_of error.

End Errno.

(** ** bind.c *)

Module Socket.
Import CInt Errno.

(** What [bind] can observe or change outside its own frame: the
    thread's [errno], the state of the host behind [__wasi_sock_bind],
    and (instrumentation) the host operations issued so far, oldest
    first, each with the handle and the typed address passed. *)
Record process (H A : Type) : Type := mkProcess {
  errno : Z;
  host : H;
  host_calls : list (Z * A)
}.
Arguments mkProcess {H A} _ _ _.
Arguments errno {H A} _.
Arguments host {H A} _.
Arguments host_calls {H A} _.

Definition set_errno {H A} (e : Z) (p : process H A) : process H A :=
  mkProcess e (host p) (host_calls p).

Section Bind.
(** [sockaddr]: what [const struct sockaddr *addr] points to;
    [addr_port]: the contents of a [__wasi_addr_port_t] object;
    [H]: the host's own state. [bind] inspects none of them. *)
Context {sockaddr addr_port H : Type}.

(** [common/net.h] (not part of the sources at hand):
    [__wasi_errno_t sockaddr_to_wasi(addr, addrlen, &out)], returning
    the error code together with the contents of [out] afterwards. *)
Variable sockaddr_to_wasi : sockaddr -> Z -> Z * addr_port.

(** The host import [__wasi_sock_bind(fd, &addr)]: error code and next
    host state. *)
Variable __wasi_sock_bind : Z -> addr_port -> H -> Z * H.

(** bind.c:10-25. *)
Definition bind (socket : Z) (addr : sockaddr) (addrlen : Z)
           (p : process H addr_port) : Z * process H addr_port :=
  let '(error, peer_addr) := sockaddr_to_wasi addr addrlen in
  if negb (error =? 0) then
    (-1, set_errno (to_errno error) p)
  else
    let '(error, h) := __wasi_sock_bind socket peer_addr (host p) in
    let p := mkProcess (errno p) h (host_calls p ++ [(socket, peer_addr)]) in
    if negb (error =? 0) then
      (-1, set_errno (to_errno error) p)
    else
      (0, p).

(** A caller that issues [bind] calls one after the other, each given as
    (socket, addr, addrlen), on the state the previous call left: the
    values returned, in order, and the final state. *)
Fixpoint bind_each (calls : list (Z * sockaddr * Z))
         (p : process H addr_port) : list Z * process H addr_port :=
  match calls with
  | [] => ([], p)
  | (socket, addr, addrlen) :: rest =>
      let '(r, p1) := bind socket addr addrlen p in
      let '(rs, p2) := bind_each rest p1 in
      (r :: rs, p2)
  end.

End Bind.

End Socket.

(** ** Address Codec *)

Module AddressCodec.

(** Modelled from the spec: the Address Codec. [sockaddr_to_wasi] and its
    reverse are defined in [common/net.h], which is not among the sources;
    bind.c only calls the former.  The definitions below follow the
    specification's contract for [decode] and [encode] and its buffer
    format: a fixed-width family tag, then for IPv4 a 4-byte address and a
    2-byte port, for IPv6 a 16-byte address, a 2-byte port and a 4-byte
    scope id.  The tag is two bytes wide, which is what makes the
    specification's IPv4 buffer eight bytes long.  The tag and the scope
    id are read in the target's little-endian order and the port in
    network order. *)
Inductive codec_error : Type :=
| InvalidArgument
| AddressFamilyNotSupported.

(** Typed Internal Address. The host fields are byte sequences whose
    length the tag fixes; see [valid_address]. *)
Inductive address : Type :=
| IPv4 (host : list byte) (port : Z)
| IPv6 (host : list byte) (port : Z) (scope : Z).

Definition header_size : Z := 2.
Definition ipv4_size : Z := 2 + 4 + 2.
Definition ipv6_size : Z := 2 + 16 + 2 + 4.

Definition encoded_size (a : address) : Z :=
  match a with
  | IPv4 _ _ => ipv4_size
  | IPv6 _ _ _ => ipv6_size
  end.

Definition valid_address (a : address) : bool :=
  match a with
  | IPv4 h p =>
      (length h =? 4)%nat && (0 <=? p) && (p <? 65536)
  | IPv6 h p s =>
      (length h =? 16)%nat && (0 <=? p) && (p <? 65536)
      && (0 <=? s) && (s <? 4294967296)
  end.

Definition byte_to_Z (b : byte) : Z := Z.of_N (Byte.to_N b).

Definition byte_of_Z (z : Z) : byte :=
  match Byte.of_N (Z.to_N (z mod 256)) with
  | Some b => b
  | None => x00
  end.

(** Little-endian and big-endian readings of a byte string. *)
Fixpoint le_decode (bs : list byte) : Z :=
  match bs with
  | [] => 0
  | b :: bs' => byte_to_Z b + 256 * le_decode bs'
  end.

Fixpoint le_encode (n : nat) (z : Z) : list byte :=
  match n with
  | O => []
  | S n' => byte_of_Z z :: le_encode n' (z / 256)
  end.

Definition be_decode (bs : list byte) : Z := le_decode (rev bs).
Definition be_encode (n : nat) (z : Z) : list byte := rev (le_encode n z).

(** How a family tag is treated. *)
Inductive family : Type :=
| FamInet4
| FamInet6
| FamUnsupported   (* recognised, but not offered by the host *)
| FamUnknown.

Section Codec.
(** [sys/socket.h] constants, not among the sources. *)
Variables AF_INET AF_INET6 : Z.
(** The families the library knows but the host does not offer. *)
Variable recognized_unsupported : Z -> bool.

Definition classify (tag : Z) : family :=
  if tag =? AF_INET then FamInet4
  else if tag =? AF_INET6 then FamInet6
  else if recognized_unsupported tag then FamUnsupported
  else FamUnknown.

(** The bytes the caller declared; nothing beyond them is looked at. *)
Definition view (buffer : list byte) (declared_length : Z) : list byte :=
  firstn (Z.to_nat declared_length) buffer.

Definition field (off n : nat) (v : list byte) : list byte :=
  firstn n (skipn off v).

Definition family_tag (buffer : list byte) (declared_length : Z) : Z :=
  le_decode (field 0 2 (view buffer declared_length)).

(** [decode(buffer, declared_length) -> TypedInternalAddress | Error]. *)
Definition decode (buffer : list byte) (declared_length : Z)
  : codec_error + address :=
  let v := view buffer declared_length in
  if declared_length <? header_size then inl InvalidArgument
  else
    match classify (family_tag buffer declared_length) with
    | FamUnknown => inl InvalidArgument
    | FamUnsupported => inl AddressFamilyNotSupported
    | FamInet4 =>
        if declared_length =? ipv4_size
        then inr (IPv4 (field 2 4 v) (be_decode (field 6 2 v)))
        else inl InvalidArgument
    | FamInet6 =>
        if declared_length =? ipv6_size
        then inr (IPv6 (field 2 16 v) (be_decode (field 18 2 v))
                       (le_decode (field 20 4 v)))
        else inl InvalidArgument
    end.

(** The full encoding of a typed address. *)
Definition address_bytes (a : address) : list byte :=
  match a with
  | IPv4 h p => le_encode 2 AF_INET ++ h ++ be_encode 2 p
  | IPv6 h p s => le_encode 2 AF_INET6 ++ h ++ be_encode 2 p ++ le_encode 4 s
  end.

(** [encode(TypedInternalAddress, caller_buffer, caller_buffer_capacity)
    -> actual_length | Error]: the caller's buffer after the write, and
    the length reported.  The write stops at the capacity; the length
    reported is the full one. *)
Definition encode (a : address) (caller_buffer : list byte) (capacity : Z)
  : codec_error + (list byte * Z) :=
  let n := Z.to_nat (Z.min capacity (encoded_size a)) in
  inr (firstn n (address_bytes a) ++ skipn n caller_buffer, encoded_size a).

(** Error constants of [errno.h] / [wasi/api.h], not among the sources. *)
Variables EINVAL EAFNOSUPPORT : Z.

(** The host-shaped code the codec synthesises for its own failures. *)
Definition from_errno (e : codec_error) : Z :=
  match e with
  | InvalidArgument => EINVAL
  | AddressFamilyNotSupported => EAFNOSUPPORT
  end.

(** [sockaddr_to_wasi(addr, addrlen, &out)] in the shape bind.c uses it:
    zero and the typed address written to [out], or the error code with
    [out] left unwritten ([None]). *)
Definition sockaddr_to_wasi (addr : list byte) (addrlen : Z)
  : Z * option address :=
  match decode addr addrlen with
  | inl e => (from_errno e, None)
  | inr a => (0, Some a)
  end.

End Codec.

End AddressCodec.

(** ** A fake host boundary and the constants the examples run with *)

Module FakeHost.
Import AddressCodec.

(** Modelled from the spec: the host side of [__wasi_sock_bind], which is
    an import and has no definition in the repository.  Per the socket
    state machine the host keeps the set of BOUND handles, refuses to bind
    a handle twice with its "already bound" error and otherwise moves the
    handle from UNBOUND to BOUND. *)
Definition is_bound (fd : Z) (bound : list Z) : bool :=
  existsb (Z.eqb fd) bound.

Definition sock_bind (already_bound : Z)
           (fd : Z) (a : option address) (bound : list Z) : Z * list Z :=
  if is_bound fd bound then (already_bound, bound) else (0, fd :: bound).

(** Modelled from the spec: numeric values for the constants that
    [wasi/api.h], [errno.h] and [sys/socket.h] define outside the sources
    (those of the WASI ABI).  The theorems take the constants as
    parameters; these values instantiate them in the examples. *)
Definition EAFNOSUPPORT : Z := 5.
Definition EADDRINUSE : Z := 3.
Definition EINVAL : Z := 28.
Definition AF_INET : Z := 1.
Definition AF_INET6 : Z := 2.
Definition AF_UNIX : Z := 3.

Definition unsupported (tag : Z) : bool := tag =? AF_UNIX.

Definition decode := AddressCodec.decode AF_INET AF_INET6 unsupported.
Definition encode := AddressCodec.encode AF_INET AF_INET6.
Definition sockaddr_to_wasi :=
  AddressCodec.sockaddr_to_wasi AF_INET AF_INET6 unsupported EINVAL EAFNOSUPPORT.

(** [bind] linked against the codec and the fake host. *)
Definition bind :=
  Socket.bind sockaddr_to_wasi (sock_bind EADDRINUSE).

(** Modelled from the spec: the closed error enumeration, here the
    failure codes 1..76 of the WASI ABI (0 is success). *)
Definition error_code (e : Z) : bool := (1 <=? e) && (e <=? 76).

(** Sample inputs: 127.0.0.1:8080 as an IPv4 buffer; the same eight
    bytes declaring family IPv6; a buffer of a recognised family the
    host does not offer; an IPv6 address. *)
Definition ipv4_buffer : list byte :=
  [x01; x00; x7f; x00; x00; x01; x1f; x90].

Definition ipv6_tagged_ipv4_buffer : list byte :=
  [x02; x00; x7f; x00; x00; x01; x1f; x90].

Definition unix_buffer : list byte :=
  [x03; x00; x2f; x74; x6d; x70].

Definition localhost_8080 : address :=
  IPv4 [x7f; x00; x00; x01] 8080.

Definition loopback6_443 : address :=
  IPv6 [x00; x00; x00; x00; x00; x00; x00; x00;
        x00; x00; x00; x00; x00; x00; x00; x01] 443 0.

(** Sample processes: nothing bound; handle 7 already BOUND; a stale
    error left in [errno] by an earlier call. *)
Definition fresh_process : Socket.process (list Z) (option address) :=
  Socket.mkProcess 0 [] [].

Definition bound_process : Socket.process (list Z) (option address) :=
  Socket.mkProcess 0 [7] [].

Definition stale_errno_process : Socket.process (list Z) (option address) :=
  Socket.mkProcess EINVAL [] [].

End FakeHost.

(** ** fork_impl.h and the lock registry *)

Module LockRegistry.

(** fork_impl.h:9-18: the lock pointers declared for a WASI build.  The
    three of lines 4-7 exist only under [__wasilibc_unmodified_upstream]. *)
Inductive lockptr : Type :=
| __at_quick_exit_lockptr
| __atexit_lockptr
| __locale_lockptr
| __random_lockptr
| __sem_open_lockptr
| __stdio_ofl_lockptr
| __syslog_lockptr
| __timezone_lockptr
| __vmlock_lockptr.

Definition lockptr_eq_dec (a b : lockptr) : {a = b} + {a <> b}.
Proof. decide equality. Defined.

(** What an instrumented registry records. *)
Inductive event : Type :=
| Acquire (l : lockptr)
| Release (l : lockptr).

(** The locks the calling thread holds, most recent first, and the
    events so far, oldest first. *)
Record locks : Type := mkLocks {
  held : list lockptr;
  log : list event
}.

(** Taking a lock that is already held would block for ever: [None]. *)
Definition LOCK (l : lockptr) (s : locks) : option locks :=
  if in_dec lockptr_eq_dec l (held s) then None
  else Some (mkLocks (l :: held s) (log s ++ [Acquire l])).

(** Releasing a lock that is not held is an error: [None]. *)
Definition UNLOCK (l : lockptr) (s : locks) : option locks :=
  if in_dec lockptr_eq_dec l (held s)
  then Some (mkLocks (remove lockptr_eq_dec l (held s)) (log s ++ [Release l]))
  else None.

Fixpoint lock_each (ls : list lockptr) (s : locks) : option locks :=
  match ls with
  | [] => Some s
  | l :: ls' =>
      match LOCK l s with
      | Some s' => lock_each ls' s'
      | None => None
      end
  end.

Fixpoint unlock_each (ls : list lockptr) (s : locks) : option locks :=
  match ls with
  | [] => Some s
  | l :: ls' =>
      match UNLOCK l s with
      | Some s' => unlock_each ls' s'
      | None => None
      end
  end.

(** Position of a lock in a table (its length when absent). *)
Fixpoint rank (l : lockptr) (table : list lockptr) : nat :=
  match table with
  | [] => O
  | x :: table' => if lockptr_eq_dec l x then O else S (rank l table')
  end.

(** The lock-order discipline, checked on a log: whenever a lock is
    taken, every lock held at that moment comes earlier in the table. *)
Fixpoint respects_order (table held : list lockptr) (evs : list event) : bool :=
  match evs with
  | [] => true
  | Acquire l :: evs' =>
      forallb (fun h => (rank h table <? rank l table)%nat) held
      && respects_order table (l :: held) evs'
  | Release l :: evs' =>
      respects_order table (remove lockptr_eq_dec l held) evs'
  end.

Section Registry.
(** The fixed, ordered table of lock pointers. *)
Variable registry : list lockptr.

(** Modelled from the spec: [acquire_all] and [release_all].  The table
    and the two loops over it are not among the sources, which only
    declare the lock pointers; per the specification the registry is
    walked forwards to acquire and backwards to release. *)
Definition acquire_all (s : locks) : option locks :=
  lock_each registry s.

Definition release_all (s : locks) : option locks :=
  unlock_each (rev registry) s.

End Registry.

(** Modelled from the spec: a registry holding the lock pointers of
    fork_impl.h in the order of their declarations. *)
Definition declared_registry : list lockptr :=
  [ __at_quick_exit_lockptr; __atexit_lockptr; __locale_lockptr;
    __random_lockptr; __sem_open_lockptr; __stdio_ofl_lockptr;
    __syslog_lockptr; __timezone_lockptr; __vmlock_lockptr ].

End LockRegistry.

(* ===================================================================== *)
(** * Part II: theorems                                                   *)
(* ===================================================================== *)

(** ** Integer conversions *)

Lemma int_of_is_int z : CInt.is_int (CInt.int_of z).
Proof.
  unfold CInt.is_int, CInt.int_of.
  pose proof (Z.mod_pos_bound (z + 2147483648) 4294967296 eq_refl). lia.
Qed.

Lemma int_of_id z : CInt.is_int z -> CInt.int_of z = z.
Proof.
  unfold CInt.is_int, CInt.int_of. intros Hz.
  rewrite Z.mod_small by lia. lia.
Qed.

Lemma u16_is_int z : CInt.is_u16 z -> CInt.is_int z.
Proof. unfold CInt.is_u16, CInt.is_int. lia. Qed.

Lemma to_errno_u16 e : CInt.is_u16 e -> Errno.to_errno e = e.
Proof. intros He. apply int_of_id, u16_is_int, He. Qed.

(** ** [bind] *)

Section BindTheory.
Import CInt Errno Socket.

Context {sockaddr addr_port H : Type}.
Variable sockaddr_to_wasi : sockaddr -> Z -> Z * addr_port.
Variable __wasi_sock_bind : Z -> addr_port -> H -> Z * H.

Local Abbreviation bind := (Socket.bind sockaddr_to_wasi __wasi_sock_bind).

(** The three ways through [bind], as equations. *)
Lemma bind_decode_error socket addr addrlen p :
  fst (sockaddr_to_wasi addr addrlen) <> 0 ->
  bind socket addr addrlen p =
  (-1, mkProcess (to_errno (fst (sockaddr_to_wasi addr addrlen)))
                 (host p) (host_calls p)).
Proof.
  intros Hne. unfold Socket.bind.
  destruct (sockaddr_to_wasi addr addrlen) as [e a]; simpl in *.
  apply Z.eqb_neq in Hne. rewrite Hne. reflexivity.
Qed.

Lemma bind_host_error socket addr addrlen p :
  fst (sockaddr_to_wasi addr addrlen) = 0 ->
  fst (__wasi_sock_bind socket (snd (sockaddr_to_wasi addr addrlen)) (host p)) <> 0 ->
  bind socket addr addrlen p =
  (-1, mkProcess
         (to_errno (fst (__wasi_sock_bind socket (snd (sockaddr_to_wasi addr addrlen)) (host p))))
         (snd (__wasi_sock_bind socket (snd (sockaddr_to_wasi addr addrlen)) (host p)))
         (host_calls p ++ [(socket, snd (sockaddr_to_wasi addr addrlen))])).
Proof.
  intros He. unfold Socket.bind.
  destruct (sockaddr_to_wasi addr addrlen) as [e a]; simpl in *. subst e.
  simpl. destruct (__wasi_sock_bind socket a (host p)) as [e h]; simpl.
  intros Hne. apply Z.eqb_neq in Hne. rewrite Hne. reflexivity.
Qed.

Lemma bind_success socket addr addrlen p :
  fst (sockaddr_to_wasi addr addrlen) = 0 ->
  fst (__wasi_sock_bind socket (snd (sockaddr_to_wasi addr addrlen)) (host p)) = 0 ->
  bind socket addr addrlen p =
  (0, mkProcess
        (errno p)
        (snd (__wasi_sock_bind socket (snd (sockaddr_to_wasi addr addrlen)) (host p)))
        (host_calls p ++ [(socket, snd (sockaddr_to_wasi addr addrlen))])).
Proof.
  intros He. unfold Socket.bind.
  destruct (sockaddr_to_wasi addr addrlen) as [e a]; simpl in *. subst e.
  simpl. destruct (__wasi_sock_bind socket a (host p)) as [e h]; simpl.
  intros ->. reflexivity.
Qed.

(** C2. When [sockaddr_to_wasi] returns a non-zero code, [bind] stores
    that code in [errno] and returns -1; the host operation is not
    invoked: no call is recorded, the host state is the one before the
    call, and the outcome does not depend on [__wasi_sock_bind] at all. *)
Theorem bind_decode_failure_skips_host socket addr addrlen p error :
  fst (sockaddr_to_wasi addr addrlen) = error ->
  is_u16 error ->
  error <> 0 ->
  bind socket addr addrlen p = (-1, mkProcess error (host p) (host_calls p))
  /\ forall other_host : Z -> addr_port -> H -> Z * H,
       Socket.bind sockaddr_to_wasi other_host socket addr addrlen p
       = bind socket addr addrlen p.
Proof.
  intros He Hu Hne. subst error.
  assert (Hb : forall g, Socket.bind sockaddr_to_wasi g socket addr addrlen p
                         = (-1, mkProcess (fst (sockaddr_to_wasi addr addrlen))
                                          (host p) (host_calls p))).
  { intros g. unfold Socket.bind.
    destruct (sockaddr_to_wasi addr addrlen) as [e a]; simpl in *.
    apply Z.eqb_neq in Hne. rewrite Hne. simpl.
    unfold set_errno. rewrite to_errno_u16 by exact Hu. reflexivity. }
  split.
  - apply Hb.
  - intros g. rewrite !Hb. reflexivity.
Qed.

(** C4. When decoding succeeds and the host reports a non-zero code,
    [errno] holds exactly that code and -1 is returned; the host was
    called once, with the decoded address, and its state is the one that
    single call left. *)
Theorem bind_host_error_verbatim socket addr addrlen p error :
  fst (sockaddr_to_wasi addr addrlen) = 0 ->
  fst (__wasi_sock_bind socket (snd (sockaddr_to_wasi addr addrlen)) (host p)) = error ->
  is_u16 error ->
  error <> 0 ->
  bind socket addr addrlen p =
  (-1, mkProcess
         error
         (snd (__wasi_sock_bind socket (snd (sockaddr_to_wasi addr addrlen)) (host p)))
         (host_calls p ++ [(socket, snd (sockaddr_to_wasi addr addrlen))])).
Proof.
  intros Hd Hh Hu Hne.
  rewrite bind_host_error by (try exact Hd; rewrite Hh; exact Hne).
  rewrite Hh, to_errno_u16 by exact Hu. reflexivity.
Qed.

(** C10. A call of [bind] that returns 0 leaves [errno] as it was. *)
Theorem bind_success_keeps_errno socket addr addrlen p :
  fst (bind socket addr addrlen p) = 0 ->
  errno (snd (bind socket addr addrlen p)) = errno p.
Proof.
  unfold Socket.bind.
  destruct (sockaddr_to_wasi addr addrlen) as [e a].
  destruct (negb (e =? 0)); simpl; [discriminate|].
  destruct (__wasi_sock_bind socket a (host p)) as [e' h].
  destruct (negb (e' =? 0)); simpl; [discriminate|].
  reflexivity.
Qed.

(** C3. [bind] returns 0 when both the decoding and the host operation
    succeed and -1 otherwise; in the latter case [errno] has been set to
    a (non-zero) member of the error enumeration.  The enumeration is the
    closed one of [wasi/api.h], which [errno.h] shares; the codes that
    the decoder and the host return belong to it. *)
Theorem bind_returns_0_or_minus_1 (errno_enum : Z -> bool)
        socket addr addrlen p :
  (forall e, errno_enum e = true -> is_u16 e) ->
  (fst (sockaddr_to_wasi addr addrlen) = 0
   \/ errno_enum (fst (sockaddr_to_wasi addr addrlen)) = true) ->
  (fst (__wasi_sock_bind socket (snd (sockaddr_to_wasi addr addrlen)) (host p)) = 0
   \/ errno_enum
        (fst (__wasi_sock_bind socket (snd (sockaddr_to_wasi addr addrlen)) (host p)))
      = true) ->
  (fst (sockaddr_to_wasi addr addrlen) = 0
   /\ fst (__wasi_sock_bind socket (snd (sockaddr_to_wasi addr addrlen)) (host p)) = 0
   /\ fst (bind socket addr addrlen p) = 0)
  \/
  ((fst (sockaddr_to_wasi addr addrlen) <> 0
    \/ fst (__wasi_sock_bind socket (snd (sockaddr_to_wasi addr addrlen)) (host p)) <> 0)
   /\ fst (bind socket addr addrlen p) = -1
   /\ errno_enum (errno (snd (bind socket addr addrlen p))) = true
   /\ errno (snd (bind socket addr addrlen p)) <> 0).
Proof.
  intros Hrange Hd Hh.
  destruct (Z.eq_dec (fst (sockaddr_to_wasi addr addrlen)) 0) as [Hd0|Hd0].
  - destruct (Z.eq_dec
                (fst (__wasi_sock_bind socket (snd (sockaddr_to_wasi addr addrlen)) (host p)))
                0) as [Hh0|Hh0].
    + left. rewrite bind_success by assumption. auto.
    + right. destruct Hh as [Hh|Hh]; [contradiction|].
      rewrite bind_host_error by assumption. simpl.
      rewrite to_errno_u16 by (apply Hrange, Hh). auto.
  - right. destruct Hd as [Hd|Hd]; [contradiction|].
    rewrite bind_decode_error by assumption. simpl.
    rewrite to_errno_u16 by (apply Hrange, Hd). auto.
Qed.

(** C1, as the code has it.  On a handle for which the host refuses every
    bind with the state error [state_error] (a BOUND handle): if the
    address decodes, [bind] returns -1 with [errno] equal to that
    host-reported error; if the address does not decode, [bind] returns -1
    with [errno] equal to the decoder's code and the host is never asked. *)
Theorem bind_on_bound_handle socket addr addrlen p state_error :
  is_u16 state_error ->
  state_error <> 0 ->
  (forall a, fst (__wasi_sock_bind socket a (host p)) = state_error) ->
  is_u16 (fst (sockaddr_to_wasi addr addrlen)) ->
  fst (bind socket addr addrlen p) = -1
  /\ (fst (sockaddr_to_wasi addr addrlen) = 0 ->
      errno (snd (bind socket addr addrlen p)) = state_error
      /\ host_calls (snd (bind socket addr addrlen p))
         = host_calls p ++ [(socket, snd (sockaddr_to_wasi addr addrlen))])
  /\ (fst (sockaddr_to_wasi addr addrlen) <> 0 ->
      errno (snd (bind socket addr addrlen p)) = fst (sockaddr_to_wasi addr addrlen)
      /\ host (snd (bind socket addr addrlen p)) = host p
      /\ host_calls (snd (bind socket addr addrlen p)) = host_calls p).
Proof.
  intros Hu Hne Hbound Hdu.
  destruct (Z.eq_dec (fst (sockaddr_to_wasi addr addrlen)) 0) as [Hd0|Hd0].
  - rewrite bind_host_error by (try assumption; rewrite Hbound; exact Hne).
    rewrite Hbound, to_errno_u16 by exact Hu. simpl.
    split; [reflexivity|]. split; [intros _; split; reflexivity|].
    intros Hc; contradiction.
  - rewrite bind_decode_error by assumption.
    rewrite to_errno_u16 by exact Hdu. simpl.
    split; [reflexivity|]. split; [intros Hc; contradiction|].
    intros _; repeat split; reflexivity.
Qed.

End BindTheory.

(** ** C5: the error mapping *)

(** C5. Over the closed error enumeration (a parameter: [wasi/api.h]
    defines it, and [errno.h] shares it), [to_errno] is defined on every
    code and yields a member of the enumeration, namely the code itself;
    a failure code never becomes 0 and two codes never share an image, so
    no value serves as a fallback. *)
Theorem to_errno_total_without_default (error_code : Z -> bool) (e : Z) :
  (forall c, error_code c = true -> CInt.is_u16 c) ->
  error_code e = true ->
  Errno.to_errno e = e
  /\ error_code (Errno.to_errno e) = true
  /\ (e <> 0 -> Errno.to_errno e <> 0)
  /\ (forall e', error_code e' = true ->
                 Errno.to_errno e' = Errno.to_errno e -> e' = e).
Proof.
  intros Hrange He.
  assert (Hid : Errno.to_errno e = e) by (apply to_errno_u16, Hrange, He).
  rewrite Hid. repeat split; auto.
  intros e' He' Heq. rewrite to_errno_u16 in Heq by (apply Hrange, He').
  exact Heq.
Qed.

(** ** Bytes and integers *)

Section ByteFacts.
Import AddressCodec.

Lemma byte_to_Z_range b : 0 <= byte_to_Z b < 256.
Proof.
  unfold byte_to_Z. pose proof (Byte.to_N_bounded b). lia.
Qed.

Lemma byte_of_to_Z b : byte_of_Z (byte_to_Z b) = b.
Proof.
  unfold byte_of_Z. pose proof (byte_to_Z_range b) as Hr.
  rewrite Z.mod_small by exact Hr.
  unfold byte_to_Z. rewrite N2Z.id, Byte.of_to_N. reflexivity.
Qed.

Lemma byte_to_of_Z z : byte_to_Z (byte_of_Z z) = z mod 256.
Proof.
  unfold byte_of_Z, byte_to_Z.
  pose proof (Z.mod_pos_bound z 256 eq_refl) as Hr.
  destruct (Byte.of_N (Z.to_N (z mod 256))) as [b|] eqn:Hb.
  - apply Byte.to_of_N in Hb. rewrite Hb. lia.
  - apply Byte.of_N_None_iff in Hb. lia.
Qed.

Lemma length_le_encode n z : length (le_encode n z) = n.
Proof.
  revert z. induction n as [|n IH]; intros z; simpl; [reflexivity|].
  rewrite IH. reflexivity.
Qed.

Lemma length_be_encode n z : length (be_encode n z) = n.
Proof. unfold be_encode. rewrite length_rev. apply length_le_encode. Qed.

Lemma le_decode_range bs : 0 <= le_decode bs < 256 ^ Z.of_nat (length bs).
Proof.
  induction bs as [|b bs IH].
  - simpl. lia.
  - cbn [le_decode length]. rewrite Nat2Z.inj_succ, Z.pow_succ_r by lia.
    pose proof (byte_to_Z_range b). lia.
Qed.

Lemma le_encode_decode bs : le_encode (length bs) (le_decode bs) = bs.
Proof.
  induction bs as [|b bs IH]; [reflexivity|].
  cbn [le_decode length le_encode].
  pose proof (byte_to_Z_range b) as Hb.
  f_equal.
  - unfold byte_of_Z.
    replace ((byte_to_Z b + 256 * le_decode bs) mod 256) with (byte_to_Z b).
    + unfold byte_to_Z. rewrite N2Z.id, Byte.of_to_N. reflexivity.
    + apply (Z.mod_unique _ 256 (le_decode bs)); lia.
  - replace ((byte_to_Z b + 256 * le_decode bs) / 256) with (le_decode bs).
    + exact IH.
    + apply (Z.div_unique _ 256 _ (byte_to_Z b)); lia.
Qed.

Lemma le_decode_encode n z :
  0 <= z < 256 ^ Z.of_nat n -> le_decode (le_encode n z) = z.
Proof.
  revert z. induction n as [|n IH]; intros z Hz.
  - simpl in *. lia.
  - cbn [le_encode le_decode].
    rewrite Nat2Z.inj_succ, Z.pow_succ_r in Hz by lia.
    rewrite byte_to_of_Z, IH.
    + pose proof (Z.div_mod z 256). lia.
    + split.
      * apply Z.div_pos; lia.
      * apply Z.div_lt_upper_bound; lia.
Qed.

Lemma be_encode_decode bs : be_encode (length bs) (be_decode bs) = bs.
Proof.
  unfold be_encode, be_decode.
  rewrite <- (length_rev bs), le_encode_decode. apply rev_involutive.
Qed.

Lemma be_decode_encode n z :
  0 <= z < 256 ^ Z.of_nat n -> be_decode (be_encode n z) = z.
Proof.
  intros Hz. unfold be_encode, be_decode.
  rewrite rev_involutive. apply le_decode_encode, Hz.
Qed.

Lemma be_decode_range bs : 0 <= be_decode bs < 256 ^ Z.of_nat (length bs).
Proof.
  unfold be_decode. rewrite <- (length_rev bs). apply le_decode_range.
Qed.

End ByteFacts.

(** ** The Address Codec *)

Section CodecTheory.
Import AddressCodec.

Variables AF_INET AF_INET6 : Z.
Variable recognized_unsupported : Z -> bool.
Variables EINVAL EAFNOSUPPORT : Z.

Local Abbreviation classify := (AddressCodec.classify AF_INET AF_INET6 recognized_unsupported).
Local Abbreviation decode := (AddressCodec.decode AF_INET AF_INET6 recognized_unsupported).
Local Abbreviation address_bytes := (AddressCodec.address_bytes AF_INET AF_INET6).
Local Abbreviation encode := (AddressCodec.encode AF_INET AF_INET6).
Local Abbreviation sockaddr_to_wasi :=
  (AddressCodec.sockaddr_to_wasi AF_INET AF_INET6 recognized_unsupported
                                 EINVAL EAFNOSUPPORT).

Lemma le_encode_decode_n n bs :
  length bs = n -> le_encode n (le_decode bs) = bs.
Proof. intros <-. apply le_encode_decode. Qed.

Lemma be_encode_decode_n n bs :
  length bs = n -> be_encode n (be_decode bs) = bs.
Proof. intros <-. apply be_encode_decode. Qed.

Lemma length_view buffer len :
  0 <= len <= Z.of_nat (length buffer) ->
  length (view buffer len) = Z.to_nat len.
Proof.
  intros Hl. unfold view. rewrite length_firstn. lia.
Qed.

Lemma decode_view_ext b1 b2 len :
  view b1 len = view b2 len -> decode b1 len = decode b2 len.
Proof.
  intros Hv. unfold AddressCodec.decode, family_tag. rewrite Hv. reflexivity.
Qed.

Lemma view_of_written buffer len rest :
  0 <= len <= Z.of_nat (length buffer) ->
  view (view buffer len ++ rest) len = view buffer len.
Proof.
  intros Hl. unfold view at 1.
  rewrite firstn_app, (length_view _ _ Hl), Nat.sub_diag, firstn_O, app_nil_r.
  apply firstn_all2. rewrite length_view by exact Hl. lia.
Qed.

Lemma fields_of_ipv4_view (v : list byte) :
  length v = 8%nat ->
  field 0 2 v ++ field 2 4 v ++ field 6 2 v = v
  /\ length (field 0 2 v) = 2%nat
  /\ length (field 2 4 v) = 4%nat
  /\ length (field 6 2 v) = 2%nat.
Proof.
  intros Hlen.
  do 9 (destruct v as [|? v]; try discriminate Hlen).
  repeat split; reflexivity.
Qed.

Lemma fields_of_ipv6_view (v : list byte) :
  length v = 24%nat ->
  field 0 2 v ++ field 2 16 v ++ field 18 2 v ++ field 20 4 v = v
  /\ length (field 0 2 v) = 2%nat
  /\ length (field 2 16 v) = 16%nat
  /\ length (field 18 2 v) = 2%nat
  /\ length (field 20 4 v) = 4%nat.
Proof.
  intros Hlen.
  do 25 (destruct v as [|? v]; try discriminate Hlen).
  repeat split; reflexivity.
Qed.

Lemma classify_inet4 tag : classify tag = FamInet4 -> tag = AF_INET.
Proof.
  unfold AddressCodec.classify.
  destruct (tag =? AF_INET) eqn:E4; [intros _; apply Z.eqb_eq, E4|].
  destruct (tag =? AF_INET6); [discriminate|].
  destruct (recognized_unsupported tag); discriminate.
Qed.

Lemma classify_inet6 tag : classify tag = FamInet6 -> tag = AF_INET6.
Proof.
  unfold AddressCodec.classify.
  destruct (tag =? AF_INET); [discriminate|].
  destruct (tag =? AF_INET6) eqn:E6; [intros _; apply Z.eqb_eq, E6|].
  destruct (recognized_unsupported tag); discriminate.
Qed.

Lemma length_address_bytes a :
  valid_address a = true ->
  Z.of_nat (length (address_bytes a)) = encoded_size a.
Proof.
  destruct a as [h p|h p s]; cbn [valid_address]; intros Hv;
    repeat (apply andb_prop in Hv; destruct Hv as [Hv ?]);
    apply Nat.eqb_eq in Hv;
    cbn [AddressCodec.address_bytes encoded_size];
    rewrite ?length_app, ?length_le_encode, ?length_be_encode, Hv;
    reflexivity.
Qed.

(** What a successful [decode] says about the bytes it was given. *)
Lemma decode_inversion x len a :
  decode x len = inr a ->
  len <= Z.of_nat (length x) ->
  address_bytes a = view x len
  /\ valid_address a = true
  /\ encoded_size a = len.
Proof.
  unfold AddressCodec.decode. intros Hdec Hlen.
  destruct (len <? header_size); [discriminate|].
  destruct (classify (family_tag x len)) eqn:Hc; try discriminate.
  - destruct (len =? ipv4_size) eqn:Hl; [|discriminate].
    apply Z.eqb_eq in Hl. subst len.
    injection Hdec as <-.
    apply classify_inet4 in Hc. unfold family_tag in Hc.
    assert (Hv : length (view x ipv4_size) = 8%nat)
      by (rewrite length_view; [reflexivity | unfold ipv4_size in *; lia]).
    destruct (fields_of_ipv4_view _ Hv) as (Hcat & Ht & Hh & Hp).
    split; [|split; [|reflexivity]].
    + cbn [AddressCodec.address_bytes]. rewrite <- Hc.
      rewrite le_encode_decode_n, be_encode_decode_n by assumption.
      exact Hcat.
    + cbn [valid_address]. rewrite Hh.
      pose proof (be_decode_range (field 6 2 (view x ipv4_size))) as Hr.
      rewrite Hp in Hr. change (256 ^ Z.of_nat 2) with 65536 in Hr.
      apply andb_true_intro; split; [apply andb_true_intro; split|].
      * reflexivity.
      * apply Z.leb_le. lia.
      * apply Z.ltb_lt. lia.
  - destruct (len =? ipv6_size) eqn:Hl; [|discriminate].
    apply Z.eqb_eq in Hl. subst len.
    injection Hdec as <-.
    apply classify_inet6 in Hc. unfold family_tag in Hc.
    assert (Hv : length (view x ipv6_size) = 24%nat)
      by (rewrite length_view; [reflexivity | unfold ipv6_size in *; lia]).
    destruct (fields_of_ipv6_view _ Hv) as (Hcat & Ht & Hh & Hp & Hs).
    split; [|split; [|reflexivity]].
    + cbn [AddressCodec.address_bytes]. rewrite <- Hc.
      rewrite !le_encode_decode_n, be_encode_decode_n by assumption.
      exact Hcat.
    + cbn [valid_address]. rewrite Hh.
      pose proof (be_decode_range (field 18 2 (view x ipv6_size))) as Hr.
      rewrite Hp in Hr. change (256 ^ Z.of_nat 2) with 65536 in Hr.
      pose proof (le_decode_range (field 20 4 (view x ipv6_size))) as Hr'.
      rewrite Hs in Hr'. change (256 ^ Z.of_nat 4) with 4294967296 in Hr'.
      repeat (apply andb_true_intro; split);
        try reflexivity; try (apply Z.leb_le; lia); apply Z.ltb_lt; lia.
Qed.

(** C6. [decode] fails with "invalid argument" exactly on a mismatch (a
    declared length below the header size, an unknown family tag, or a
    supported family whose required size differs from the declared
    length) and with "address family not supported" exactly when the
    family is recognised but unsupported; the codes that
    [sockaddr_to_wasi] returns in the two cases differ, so the classes
    stay apart. *)
Theorem decode_failure_classes buffer declared_length :
  EINVAL <> 0 ->
  EAFNOSUPPORT <> 0 ->
  EINVAL <> EAFNOSUPPORT ->
  (decode buffer declared_length = inl InvalidArgument <->
   declared_length < header_size
   \/ (header_size <= declared_length
       /\ (classify (family_tag buffer declared_length) = FamUnknown
           \/ (classify (family_tag buffer declared_length) = FamInet4
               /\ declared_length <> ipv4_size)
           \/ (classify (family_tag buffer declared_length) = FamInet6
               /\ declared_length <> ipv6_size))))
  /\ (decode buffer declared_length = inl AddressFamilyNotSupported <->
      header_size <= declared_length
      /\ classify (family_tag buffer declared_length) = FamUnsupported)
  /\ (decode buffer declared_length = inl InvalidArgument <->
      fst (sockaddr_to_wasi buffer declared_length) = EINVAL)
  /\ (decode buffer declared_length = inl AddressFamilyNotSupported <->
      fst (sockaddr_to_wasi buffer declared_length) = EAFNOSUPPORT).
Proof.
  intros Hi Ha Hne.
  unfold AddressCodec.sockaddr_to_wasi, AddressCodec.decode.
  destruct (declared_length <? header_size) eqn:Hh;
    [apply Z.ltb_lt in Hh | apply Z.ltb_ge in Hh].
  - cbn. repeat split; intros; try tauto; try congruence; try lia.
  - destruct (classify (family_tag buffer declared_length)) eqn:Hc.
    + destruct (declared_length =? ipv4_size) eqn:Hl;
        [apply Z.eqb_eq in Hl | apply Z.eqb_neq in Hl]; cbn;
        repeat split; intros; try tauto; try congruence; try lia;
        try (intuition (try congruence; try lia)).
    + destruct (declared_length =? ipv6_size) eqn:Hl;
        [apply Z.eqb_eq in Hl | apply Z.eqb_neq in Hl]; cbn;
        repeat split; intros; try tauto; try congruence; try lia;
        try (intuition (try congruence; try lia)).
    + cbn. repeat split; intros; try tauto; try congruence; try lia;
        try (intuition (try congruence; try lia)).
    + cbn. repeat split; intros; try tauto; try congruence; try lia;
        try (intuition (try congruence; try lia)).
Qed.

(** From buffers to buffers.  Let [x] be a generic address buffer that
    [decode] accepts at its declared length.  Then the decoded value is a
    valid typed address, and encoding it into a caller buffer of
    sufficient capacity writes back exactly the declared bytes of [x],
    reports the declared length, and leaves a buffer that decodes to the
    same typed address again. *)
Lemma encode_of_decoded x declared_length a caller_buffer capacity :
  decode x declared_length = inr a ->
  declared_length <= Z.of_nat (length x) ->
  declared_length <= capacity ->
  valid_address a = true
  /\ encode a caller_buffer capacity
     = inr (view x declared_length
              ++ skipn (Z.to_nat declared_length) caller_buffer,
            declared_length)
  /\ decode (view x declared_length
               ++ skipn (Z.to_nat declared_length) caller_buffer)
            declared_length
     = inr a.
Proof.
  intros Hdec Hlen Hcap.
  destruct (decode_inversion _ _ _ Hdec Hlen) as (Hbytes & Hvalid & Hsize).
  assert (Hpos : 0 <= declared_length)
    by (rewrite <- Hsize; destruct a; cbv; discriminate).
  split; [exact Hvalid|]. split.
  - unfold AddressCodec.encode. rewrite Hsize, Hbytes.
    rewrite Z.min_r by exact Hcap.
    rewrite firstn_all2 by (rewrite length_view; lia).
    reflexivity.
  - rewrite <- Hdec. apply decode_view_ext, view_of_written. lia.
Qed.

(** The converse direction: every valid typed address is the decoding of
    its own encoding, provided the two family tags are distinct 16-bit
    values. *)
Lemma decode_address_bytes a rest :
  CInt.is_u16 AF_INET ->
  CInt.is_u16 AF_INET6 ->
  AF_INET <> AF_INET6 ->
  valid_address a = true ->
  decode (address_bytes a ++ rest) (encoded_size a) = inr a.
Proof.
  unfold CInt.is_u16. intros H4 H6 Hne Hv.
  assert (Ht4 : le_decode (le_encode 2 AF_INET) = AF_INET)
    by (apply le_decode_encode; change (256 ^ Z.of_nat 2) with 65536; lia).
  assert (Ht6 : le_decode (le_encode 2 AF_INET6) = AF_INET6)
    by (apply le_decode_encode; change (256 ^ Z.of_nat 2) with 65536; lia).
  destruct a as [h p|h p s]; cbn [valid_address] in Hv;
    repeat (apply andb_prop in Hv; destruct Hv as [Hv ?]);
    apply Nat.eqb_eq in Hv.
  - do 5 (destruct h as [|? h]; try discriminate Hv).
    assert (Hp : be_decode (be_encode 2 p) = p)
      by (apply be_decode_encode; change (256 ^ Z.of_nat 2) with 65536; lia).
    unfold AddressCodec.decode, family_tag.
    cbn [encoded_size AddressCodec.address_bytes].
    change (view ((le_encode 2 AF_INET ++ [b; b0; b1; b2] ++ be_encode 2 p) ++ rest)
                 ipv4_size)
      with (le_encode 2 AF_INET ++ [b; b0; b1; b2] ++ be_encode 2 p).
    change (field 0 2 (le_encode 2 AF_INET ++ [b; b0; b1; b2] ++ be_encode 2 p))
      with (le_encode 2 AF_INET).
    rewrite Ht4. unfold AddressCodec.classify. rewrite Z.eqb_refl.
    change (field 6 2 (le_encode 2 AF_INET ++ [b; b0; b1; b2] ++ be_encode 2 p))
      with (be_encode 2 p).
    rewrite Hp. reflexivity.
  - do 17 (destruct h as [|? h]; try discriminate Hv).
    assert (Hp : be_decode (be_encode 2 p) = p)
      by (apply be_decode_encode; change (256 ^ Z.of_nat 2) with 65536; lia).
    assert (Hs : le_decode (le_encode 4 s) = s)
      by (apply le_decode_encode;
          change (256 ^ Z.of_nat 4) with 4294967296; lia).
    unfold AddressCodec.decode, family_tag.
    cbn [encoded_size AddressCodec.address_bytes].
    match goal with
    | |- context [view (?bytes ++ rest) ipv6_size] =>
        change (view (bytes ++ rest) ipv6_size) with bytes
    end.
    match goal with
    | |- context [field 0 2 ?v] => change (field 0 2 v) with (le_encode 2 AF_INET6)
    end.
    rewrite Ht6. unfold AddressCodec.classify.
    replace (AF_INET6 =? AF_INET) with false by (symmetry; apply Z.eqb_neq; lia).
    rewrite Z.eqb_refl.
    match goal with
    | |- context [field 18 2 ?v] => change (field 18 2 v) with (be_encode 2 p)
    end.
    match goal with
    | |- context [field 20 4 ?v] => change (field 20 4 v) with (le_encode 4 s)
    end.
    rewrite Hp, Hs. reflexivity.
Qed.

(** C7. Round trip, for every valid IPv4 and IPv6 typed address [a] (the
    two family tags being distinct 16-bit values).  Its generic form
    [x = address_bytes a] is accepted by [decode] at its encoded size and
    decodes to [a]; encoding [a] into a caller buffer of sufficient
    capacity writes exactly [x], reports the encoded size and leaves a
    buffer that decodes to [a] again.  Moreover [x] is the only generic
    form of [a]: whatever buffer decodes to [a] declares exactly the bytes
    [x], and encoding gives those bytes back. *)
Theorem codec_round_trip a caller_buffer capacity :
  CInt.is_u16 AF_INET ->
  CInt.is_u16 AF_INET6 ->
  AF_INET <> AF_INET6 ->
  valid_address a = true ->
  encoded_size a <= capacity ->
  decode (address_bytes a) (encoded_size a) = inr a
  /\ encode a caller_buffer capacity
     = inr (address_bytes a
              ++ skipn (Z.to_nat (encoded_size a)) caller_buffer,
            encoded_size a)
  /\ decode (address_bytes a
               ++ skipn (Z.to_nat (encoded_size a)) caller_buffer)
            (encoded_size a)
     = inr a
  /\ (forall x declared_length buffer' capacity',
        decode x declared_length = inr a ->
        declared_length <= Z.of_nat (length x) ->
        declared_length <= capacity' ->
        view x declared_length = address_bytes a
        /\ encode a buffer' capacity'
           = inr (view x declared_length
                    ++ skipn (Z.to_nat declared_length) buffer',
                  declared_length)).
Proof.
  intros H4 H6 Hne Hv Hcap.
  pose proof (length_address_bytes a Hv) as Hlen.
  split; [|split; [|split]].
  - rewrite <- (app_nil_r (address_bytes a)) at 1.
    apply decode_address_bytes; assumption.
  - unfold AddressCodec.encode. rewrite Z.min_r by exact Hcap.
    rewrite firstn_all2 by lia. reflexivity.
  - apply decode_address_bytes; assumption.
  - intros x declared_length buffer' capacity' Hdec Hx Hc.
    destruct (decode_inversion _ _ _ Hdec Hx) as (Hbytes & _ & _).
    split; [symmetry; exact Hbytes|].
    apply (encode_of_decoded x declared_length a buffer' capacity' Hdec Hx Hc).
Qed.

(** C8. Truncation.  For a (valid) typed address and a capacity below
    its encoded size, [encode] does not fail; the caller's buffer
    receives the first [capacity] bytes of the full encoding, exactly
    [capacity] of them, the bytes after them stay as they were, and the
    length reported is the full encoded size, which exceeds the
    capacity. *)
Theorem encode_truncates_and_reports_full_size a caller_buffer capacity :
  valid_address a = true ->
  0 <= capacity < encoded_size a ->
  encode a caller_buffer capacity
  = inr (firstn (Z.to_nat capacity) (address_bytes a)
           ++ skipn (Z.to_nat capacity) caller_buffer,
         encoded_size a)
  /\ Z.of_nat (length (firstn (Z.to_nat capacity) (address_bytes a))) = capacity
  /\ Z.of_nat (length (address_bytes a)) = encoded_size a
  /\ (forall written reported,
        encode a caller_buffer capacity = inr (written, reported) ->
        capacity < reported).
Proof.
  intros Hv Hc.
  pose proof (length_address_bytes _ Hv) as Hlen.
  assert (He : encode a caller_buffer capacity
               = inr (firstn (Z.to_nat capacity) (address_bytes a)
                        ++ skipn (Z.to_nat capacity) caller_buffer,
                      encoded_size a)).
  { unfold AddressCodec.encode. rewrite Z.min_l by lia. reflexivity. }
  split; [exact He|]. split; [|split; [exact Hlen|]].
  - rewrite length_firstn. lia.
  - intros written reported Hw. rewrite He in Hw.
    injection Hw as _ <-. lia.
Qed.

End CodecTheory.

(** ** The lock registry *)

Section LockTheory.
Import LockRegistry.

Lemma lock_each_fresh ls :
  forall s,
    NoDup ls ->
    (forall l, In l ls -> ~ In l (held s)) ->
    lock_each ls s
    = Some (mkLocks (rev ls ++ held s) (log s ++ map Acquire ls)).
Proof.
  induction ls as [|l ls IH]; intros s Hnd Hfree.
  - simpl. rewrite app_nil_r. destruct s; reflexivity.
  - inversion Hnd as [|? ? Hnotin Hnd']; subst.
    cbn [lock_each]. unfold LOCK.
    destruct (in_dec lockptr_eq_dec l (held s)) as [Hin|_].
    + exfalso. apply (Hfree l); [left; reflexivity | exact Hin].
    + rewrite IH.
      * cbn [held log rev map]. rewrite <- !app_assoc. reflexivity.
      * exact Hnd'.
      * intros l' Hl' [Heq|Hin]; cbn [held] in *.
        -- subst l'. contradiction.
        -- apply (Hfree l'); [right; exact Hl' | exact Hin].
Qed.

Lemma unlock_each_held ls :
  forall s,
    NoDup ls ->
    (forall l, In l ls -> In l (held s)) ->
    exists h,
      unlock_each ls s = Some (mkLocks h (log s ++ map Release ls))
      /\ forall x, In x h -> In x (held s) /\ ~ In x ls.
Proof.
  induction ls as [|l ls IH]; intros s Hnd Hheld.
  - exists (held s). simpl. rewrite app_nil_r. destruct s; auto.
  - inversion Hnd as [|? ? Hnotin Hnd']; subst.
    cbn [unlock_each]. unfold UNLOCK.
    destruct (in_dec lockptr_eq_dec l (held s)) as [_|Hout].
    + destruct (IH (mkLocks (remove lockptr_eq_dec l (held s))
                            (log s ++ [Release l])) Hnd')
        as (h & Hrun & Hh).
      * intros l' Hl'. cbn [held].
        apply in_in_remove.
        -- intros ->. contradiction.
        -- apply Hheld. right. exact Hl'.
      * exists h. split.
        -- rewrite Hrun. cbn [log map]. rewrite <- app_assoc. reflexivity.
        -- intros x Hx. destruct (Hh x Hx) as [Hrem Hnot].
           cbn [held] in Hrem. apply in_remove in Hrem.
           destruct Hrem as [Hin Hne].
           split; [exact Hin|]. intros [Heq|Hin']; [congruence|contradiction].
    + exfalso. apply Hout, Hheld. left. reflexivity.
Qed.

Lemma rank_in_prefix pre rest l :
  In l pre -> (rank l (pre ++ rest) < length pre)%nat.
Proof.
  induction pre as [|x pre IH]; intros Hin; [destruct Hin|].
  cbn [app rank length].
  destruct (lockptr_eq_dec l x) as [_|Hne]; [lia|].
  destruct Hin as [Heq|Hin]; [congruence|].
  specialize (IH Hin). lia.
Qed.

Lemma rank_after_prefix pre rest l :
  ~ In l pre -> rank l (pre ++ l :: rest) = length pre.
Proof.
  induction pre as [|x pre IH]; intros Hnot; cbn [app rank length].
  - destruct (lockptr_eq_dec l l); congruence.
  - destruct (lockptr_eq_dec l x) as [Heq|_].
    + exfalso. apply Hnot. left. congruence.
    + f_equal. apply IH. intros Hin. apply Hnot. right. exact Hin.
Qed.

Lemma respects_order_acquire post :
  forall pre table tail,
    table = pre ++ post ->
    NoDup table ->
    respects_order table (rev pre) (map Acquire post ++ tail)
    = respects_order table (rev table) tail.
Proof.
  induction post as [|l post IH]; intros pre table tail Ht Hnd.
  - rewrite app_nil_r in Ht. subst table. reflexivity.
  - cbn [map app respects_order].
    assert (Hl : ~ In l pre).
    { subst table. apply NoDup_remove_2 in Hnd.
      intros Hin. apply Hnd, in_or_app. left. exact Hin. }
    assert (Hall : forallb (fun h => (rank h table <? rank l table)%nat)
                           (rev pre) = true).
    { apply forallb_forall. intros h Hh. apply in_rev in Hh.
      apply Nat.ltb_lt. subst table.
      rewrite (rank_after_prefix pre post l Hl).
      apply rank_in_prefix, Hh. }
    rewrite Hall. cbn [andb].
    replace (l :: rev pre) with (rev (pre ++ [l]))
      by (rewrite rev_app_distr; reflexivity).
    apply IH; [|exact Hnd].
    rewrite <- app_assoc. exact Ht.
Qed.

Lemma respects_order_release table ls :
  forall held, respects_order table held (map Release ls) = true.
Proof.
  induction ls as [|l ls IH]; intros held; [reflexivity|].
  cbn [map respects_order]. apply IH.
Qed.

(** C9. For a registry without repeated entries and a thread that holds
    none of its locks: [acquire_all] completes and takes the locks in
    registry order; [release_all] then completes and returns them in the
    exact reverse order, leaving nothing held; and along the way no lock
    is taken while a later entry of the registry is held. *)
Theorem acquire_forward_release_reverse (registry : list lockptr) (s : locks) :
  NoDup registry ->
  held s = [] ->
  exists s1 s2,
    acquire_all registry s = Some s1
    /\ log s1 = log s ++ map Acquire registry
    /\ held s1 = rev registry
    /\ release_all registry s1 = Some s2
    /\ log s2 = log s1 ++ map Release (rev registry)
    /\ held s2 = []
    /\ respects_order registry []
         (map Acquire registry ++ map Release (rev registry)) = true.
Proof.
  intros Hnd Hfree.
  pose proof (lock_each_fresh registry s Hnd) as Hacq.
  rewrite Hfree, app_nil_r in Hacq.
  specialize (Hacq (fun _ _ Hin => Hin)).
  set (s1 := mkLocks (rev registry) (log s ++ map Acquire registry)) in *.
  destruct (unlock_each_held (rev registry) s1) as (h & Hrel & Hh).
  { apply NoDup_rev, Hnd. }
  { intros l Hl. exact Hl. }
  exists s1, (mkLocks h (log s1 ++ map Release (rev registry))).
  repeat split; try assumption; try reflexivity.
  - cbn [held]. destruct h as [|x h]; [reflexivity|].
    exfalso. destruct (Hh x (or_introl eq_refl)) as [Hin Hnot].
    apply Hnot, Hin.
  - rewrite (respects_order_acquire registry [] registry _ eq_refl Hnd).
    apply respects_order_release.
Qed.

End LockTheory.

(** ** The model at work: concrete runs *)

Section Runs.
Import Socket AddressCodec FakeHost.

(** The specification's scenario: eight bytes declaring family IPv6. *)
Example bind_ipv6_tag_on_eight_bytes :
  FakeHost.decode ipv6_tagged_ipv4_buffer 8 = inl InvalidArgument
  /\ FakeHost.bind 5 ipv6_tagged_ipv4_buffer 8 fresh_process
     = (-1, mkProcess EINVAL [] []).
Proof. split; vm_compute; reflexivity. Qed.

Example bind_unsupported_family :
  FakeHost.bind 5 unix_buffer 6 fresh_process
  = (-1, mkProcess EAFNOSUPPORT [] []).
Proof. vm_compute. reflexivity. Qed.

Example bind_then_bind_again :
  FakeHost.bind 7 ipv4_buffer 8 fresh_process
  = (0, mkProcess 0 [7] [(7, Some localhost_8080)])
  /\ FakeHost.bind 7 ipv4_buffer 8 bound_process
     = (-1, mkProcess EADDRINUSE [7] [(7, Some localhost_8080)]).
Proof. split; vm_compute; reflexivity. Qed.

End Runs.

(** ** Instances of the theorems on the fake host *)

Section Instances.
Import CInt Socket AddressCodec FakeHost.

Lemma error_code_is_u16 e : error_code e = true -> is_u16 e.
Proof.
  unfold error_code, is_u16. intros He.
  apply andb_prop in He. destruct He as [Hlo Hhi].
  apply Z.leb_le in Hlo. apply Z.leb_le in Hhi. lia.
Defined.

(** C1 fails as stated: handle 7 is BOUND, the host would answer
    [EADDRINUSE] to any bind on it, and yet a call with a malformed
    address (eight bytes declaring IPv6) ends with the decoder's [EINVAL]
    in [errno], the host never having been asked. *)
Lemma bound_handle_malformed_address_counterexample :
  is_bound 7 (host bound_process) = true
  /\ fst (sock_bind EADDRINUSE 7 None (host bound_process)) = EADDRINUSE
  /\ FakeHost.decode ipv6_tagged_ipv4_buffer 8 = inl InvalidArgument
  /\ FakeHost.bind 7 ipv6_tagged_ipv4_buffer 8 bound_process
     = (-1, mkProcess EINVAL [7] [])
  /\ errno (snd (FakeHost.bind 7 ipv6_tagged_ipv4_buffer 8 bound_process))
     <> EADDRINUSE.
Proof.
  repeat split; try (vm_compute; reflexivity).
  vm_compute. discriminate.
Qed.

Lemma bind_on_bound_handle_witness :
  fst (FakeHost.bind 7 ipv6_tagged_ipv4_buffer 8 bound_process) = -1
  /\ (fst (FakeHost.sockaddr_to_wasi ipv6_tagged_ipv4_buffer 8) = 0 ->
      errno (snd (FakeHost.bind 7 ipv6_tagged_ipv4_buffer 8 bound_process))
      = EADDRINUSE
      /\ host_calls (snd (FakeHost.bind 7 ipv6_tagged_ipv4_buffer 8 bound_process))
         = host_calls bound_process
             ++ [(7, snd (FakeHost.sockaddr_to_wasi ipv6_tagged_ipv4_buffer 8))])
  /\ (fst (FakeHost.sockaddr_to_wasi ipv6_tagged_ipv4_buffer 8) <> 0 ->
      errno (snd (FakeHost.bind 7 ipv6_tagged_ipv4_buffer 8 bound_process))
      = fst (FakeHost.sockaddr_to_wasi ipv6_tagged_ipv4_buffer 8)
      /\ host (snd (FakeHost.bind 7 ipv6_tagged_ipv4_buffer 8 bound_process))
         = host bound_process
      /\ host_calls (snd (FakeHost.bind 7 ipv6_tagged_ipv4_buffer 8 bound_process))
         = host_calls bound_process).
Proof.
  apply (bind_on_bound_handle FakeHost.sockaddr_to_wasi (sock_bind EADDRINUSE)
           7 ipv6_tagged_ipv4_buffer 8 bound_process EADDRINUSE).
  - unfold is_u16. split; vm_compute; [discriminate | reflexivity].
  - vm_compute. discriminate.
  - intros a. reflexivity.
  - unfold is_u16. split; vm_compute; [discriminate | reflexivity].
Defined.

Lemma bind_decode_failure_skips_host_witness :
  FakeHost.bind 7 ipv6_tagged_ipv4_buffer 8 fresh_process
  = (-1, mkProcess 28 [] [])
  /\ forall other_host : Z -> option address -> list Z -> Z * list Z,
       Socket.bind FakeHost.sockaddr_to_wasi other_host
                   7 ipv6_tagged_ipv4_buffer 8 fresh_process
       = FakeHost.bind 7 ipv6_tagged_ipv4_buffer 8 fresh_process.
Proof.
  apply (bind_decode_failure_skips_host
           FakeHost.sockaddr_to_wasi (sock_bind EADDRINUSE)
           7 ipv6_tagged_ipv4_buffer 8 fresh_process 28).
  - vm_compute. reflexivity.
  - unfold is_u16. lia.
  - lia.
Defined.

Lemma bind_returns_0_or_minus_1_witness :
  (fst (FakeHost.sockaddr_to_wasi ipv4_buffer 8) = 0
   /\ fst (sock_bind EADDRINUSE 7
             (snd (FakeHost.sockaddr_to_wasi ipv4_buffer 8))
             (host bound_process)) = 0
   /\ fst (FakeHost.bind 7 ipv4_buffer 8 bound_process) = 0)
  \/
  ((fst (FakeHost.sockaddr_to_wasi ipv4_buffer 8) <> 0
    \/ fst (sock_bind EADDRINUSE 7
              (snd (FakeHost.sockaddr_to_wasi ipv4_buffer 8))
              (host bound_process)) <> 0)
   /\ fst (FakeHost.bind 7 ipv4_buffer 8 bound_process) = -1
   /\ error_code (errno (snd (FakeHost.bind 7 ipv4_buffer 8 bound_process)))
      = true
   /\ errno (snd (FakeHost.bind 7 ipv4_buffer 8 bound_process)) <> 0).
Proof.
  apply (bind_returns_0_or_minus_1
           FakeHost.sockaddr_to_wasi (sock_bind EADDRINUSE)
           error_code 7 ipv4_buffer 8 bound_process).
  - exact error_code_is_u16.
  - left. vm_compute. reflexivity.
  - right. vm_compute. reflexivity.
Defined.

Lemma bind_host_error_verbatim_witness :
  FakeHost.bind 7 ipv4_buffer 8 bound_process
  = (-1, mkProcess 3 [7] [(7, Some localhost_8080)]).
Proof.
  apply (bind_host_error_verbatim
           FakeHost.sockaddr_to_wasi (sock_bind EADDRINUSE)
           7 ipv4_buffer 8 bound_process 3).
  - vm_compute. reflexivity.
  - vm_compute. reflexivity.
  - unfold is_u16. lia.
  - lia.
Defined.

Lemma bind_success_keeps_errno_witness :
  fst (FakeHost.bind 7 ipv4_buffer 8 stale_errno_process) = 0
  /\ errno (snd (FakeHost.bind 7 ipv4_buffer 8 stale_errno_process))
     = errno stale_errno_process.
Proof.
  split.
  - vm_compute. reflexivity.
  - apply (bind_success_keeps_errno
             FakeHost.sockaddr_to_wasi (sock_bind EADDRINUSE)
             7 ipv4_buffer 8 stale_errno_process).
    vm_compute. reflexivity.
Defined.

Lemma to_errno_total_without_default_witness :
  Errno.to_errno 28 = 28
  /\ error_code (Errno.to_errno 28) = true
  /\ (28 <> 0 -> Errno.to_errno 28 <> 0)
  /\ (forall e', error_code e' = true ->
                 Errno.to_errno e' = Errno.to_errno 28 -> e' = 28).
Proof.
  apply (to_errno_total_without_default error_code 28).
  - exact error_code_is_u16.
  - vm_compute. reflexivity.
Defined.

Lemma decode_failure_classes_witness :
  (FakeHost.decode ipv6_tagged_ipv4_buffer 8 = inl InvalidArgument <->
   fst (FakeHost.sockaddr_to_wasi ipv6_tagged_ipv4_buffer 8) = EINVAL)
  /\ (FakeHost.decode ipv6_tagged_ipv4_buffer 8 = inl AddressFamilyNotSupported <->
      fst (FakeHost.sockaddr_to_wasi ipv6_tagged_ipv4_buffer 8) = EAFNOSUPPORT).
Proof.
  apply (decode_failure_classes
           AF_INET AF_INET6 unsupported EINVAL EAFNOSUPPORT
           ipv6_tagged_ipv4_buffer 8).
  - vm_compute. discriminate.
  - vm_compute. discriminate.
  - vm_compute. discriminate.
Defined.

Example encode_of_decoded_ipv4 :
  valid_address localhost_8080 = true
  /\ FakeHost.encode localhost_8080 (repeat x00 16) 16
     = inr (view ipv4_buffer 8 ++ skipn (Z.to_nat 8) (repeat x00 16), 8)
  /\ FakeHost.decode
       (view ipv4_buffer 8 ++ skipn (Z.to_nat 8) (repeat x00 16)) 8
     = inr localhost_8080.
Proof.
  apply (encode_of_decoded AF_INET AF_INET6 unsupported
           ipv4_buffer 8 localhost_8080 (repeat x00 16) 16).
  - vm_compute. reflexivity.
  - vm_compute. discriminate.
  - lia.
Qed.

Lemma codec_round_trip_witness :
  valid_address loopback6_443 = true
  /\ FakeHost.decode
       (AddressCodec.address_bytes AF_INET AF_INET6 loopback6_443) 24
     = inr loopback6_443
  /\ FakeHost.encode loopback6_443 (repeat xff 32) 32
     = inr (AddressCodec.address_bytes AF_INET AF_INET6 loopback6_443
              ++ skipn (Z.to_nat 24) (repeat xff 32),
            24)
  /\ FakeHost.decode
       (AddressCodec.address_bytes AF_INET AF_INET6 loopback6_443
          ++ skipn (Z.to_nat 24) (repeat xff 32)) 24
     = inr loopback6_443.
Proof.
  assert (Hv : valid_address loopback6_443 = true) by (vm_compute; reflexivity).
  split; [exact Hv|].
  destruct (codec_round_trip AF_INET AF_INET6 unsupported
              loopback6_443 (repeat xff 32) 32) as (Hd & He & Hd' & _).
  - unfold is_u16. vm_compute. split; [discriminate | reflexivity].
  - unfold is_u16. vm_compute. split; [discriminate | reflexivity].
  - vm_compute. discriminate.
  - exact Hv.
  - vm_compute. discriminate.
  - split; [exact Hd|]. split; [exact He | exact Hd'].
Defined.

Lemma encode_truncates_and_reports_full_size_witness :
  FakeHost.encode loopback6_443 (repeat xff 8) 8
  = inr (firstn (Z.to_nat 8)
           (AddressCodec.address_bytes AF_INET AF_INET6 loopback6_443)
           ++ skipn (Z.to_nat 8) (repeat xff 8),
         24)
  /\ Z.of_nat (length (firstn (Z.to_nat 8)
                 (AddressCodec.address_bytes AF_INET AF_INET6 loopback6_443)))
     = 8
  /\ Z.of_nat (length (AddressCodec.address_bytes AF_INET AF_INET6 loopback6_443))
     = 24
  /\ (forall written reported,
        FakeHost.encode loopback6_443 (repeat xff 8) 8 = inr (written, reported) ->
        8 < reported).
Proof.
  apply (encode_truncates_and_reports_full_size AF_INET AF_INET6
           loopback6_443 (repeat xff 8) 8).
  - vm_compute. reflexivity.
  - vm_compute. split; [discriminate | reflexivity].
Defined.

Lemma declared_registry_NoDup : NoDup LockRegistry.declared_registry.
Proof.
  unfold LockRegistry.declared_registry.
  repeat (constructor; [simpl; intuition discriminate|]).
  constructor.
Defined.

Lemma acquire_forward_release_reverse_witness :
  exists s1 s2,
    LockRegistry.acquire_all LockRegistry.declared_registry
                             (LockRegistry.mkLocks [] []) = Some s1
    /\ LockRegistry.log s1
       = [] ++ map LockRegistry.Acquire LockRegistry.declared_registry
    /\ LockRegistry.held s1 = rev LockRegistry.declared_registry
    /\ LockRegistry.release_all LockRegistry.declared_registry s1 = Some s2
    /\ LockRegistry.log s2
       = LockRegistry.log s1
           ++ map LockRegistry.Release (rev LockRegistry.declared_registry)
    /\ LockRegistry.held s2 = []
    /\ LockRegistry.respects_order LockRegistry.declared_registry []
         (map LockRegistry.Acquire LockRegistry.declared_registry
            ++ map LockRegistry.Release (rev LockRegistry.declared_registry))
       = true.
Proof.
  apply (acquire_forward_release_reverse LockRegistry.declared_registry
           (LockRegistry.mkLocks [] [])).
  - exact declared_registry_NoDup.
  - reflexivity.
Defined.

End Instances.

(** ** More on [bind]: what a caller can read off a call *)

Section BindOutcome.
Import CInt Errno Socket.

Context {sockaddr addr_port H : Type}.
Variable sockaddr_to_wasi : sockaddr -> Z -> Z * addr_port.
Variable __wasi_sock_bind : Z -> addr_port -> H -> Z * H.

Local Abbreviation bind := (Socket.bind sockaddr_to_wasi __wasi_sock_bind).
Local Abbreviation bind_each :=
  (Socket.bind_each sockaddr_to_wasi __wasi_sock_bind).

Lemma bind_return_and_host_interaction_aux socket addr addrlen p :
  (fst (bind socket addr addrlen p) = 0 \/ fst (bind socket addr addrlen p) = -1)
  /\ host_calls (snd (bind socket addr addrlen p))
     = host_calls p
         ++ (if fst (sockaddr_to_wasi addr addrlen) =? 0
             then [(socket, snd (sockaddr_to_wasi addr addrlen))]
             else []).
Proof.
  unfold Socket.bind.
  destruct (sockaddr_to_wasi addr addrlen) as [e a]. cbn [fst snd].
  destruct (e =? 0); cbn.
  - destruct (__wasi_sock_bind socket a (host p)) as [e' h].
    destruct (negb (e' =? 0)); cbn; auto.
  - rewrite app_nil_r. auto.
Qed.

(** X1. Whatever the arguments, [bind] returns 0 or -1, and 0 exactly
    when both the decoder and the host returned 0.  The host is asked at
    most once: exactly when the decoder returned 0, with the caller's own
    handle and the decoded address, and the host state afterwards is the
    one that call left; otherwise the host state is untouched. *)
Theorem bind_return_and_host_interaction socket addr addrlen p :
  (fst (bind socket addr addrlen p) = 0 \/ fst (bind socket addr addrlen p) = -1)
  /\ (fst (bind socket addr addrlen p) = 0 <->
      fst (sockaddr_to_wasi addr addrlen) = 0
      /\ fst (__wasi_sock_bind socket (snd (sockaddr_to_wasi addr addrlen)) (host p)) = 0)
  /\ host_calls (snd (bind socket addr addrlen p))
     = host_calls p
         ++ (if fst (sockaddr_to_wasi addr addrlen) =? 0
             then [(socket, snd (sockaddr_to_wasi addr addrlen))]
             else [])
  /\ host (snd (bind socket addr addrlen p))
     = (if fst (sockaddr_to_wasi addr addrlen) =? 0
        then snd (__wasi_sock_bind socket (snd (sockaddr_to_wasi addr addrlen)) (host p))
        else host p).
Proof.
  destruct (Z.eq_dec (fst (sockaddr_to_wasi addr addrlen)) 0) as [Hd|Hd].
  - destruct (Z.eq_dec
                (fst (__wasi_sock_bind socket (snd (sockaddr_to_wasi addr addrlen)) (host p)))
                0) as [Hh|Hh].
    + rewrite bind_success by assumption. rewrite Hd. cbn.
      repeat split; auto.
    + rewrite bind_host_error by assumption. rewrite Hd. cbn.
      split; [right; reflexivity|]. split; [|split; reflexivity].
      split; [discriminate | intros [_ Hc]; contradiction].
  - rewrite bind_decode_error by assumption.
    apply Z.eqb_neq in Hd. rewrite Hd. cbn. rewrite app_nil_r.
    apply Z.eqb_neq in Hd.
    split; [right; reflexivity|]. split; [|split; reflexivity].
    split; [discriminate | intros [Hc _]; contradiction].
Qed.

(** X2. A caller that sees 0 returned knows that the decoder and the host
    both returned 0 and that the only effects were the single host call
    and the host's own state change: [errno] is the one from before. *)
Theorem bind_zero_inversion socket addr addrlen p :
  fst (bind socket addr addrlen p) = 0 ->
  fst (sockaddr_to_wasi addr addrlen) = 0
  /\ fst (__wasi_sock_bind socket (snd (sockaddr_to_wasi addr addrlen)) (host p)) = 0
  /\ snd (bind socket addr addrlen p)
     = mkProcess
         (errno p)
         (snd (__wasi_sock_bind socket (snd (sockaddr_to_wasi addr addrlen)) (host p)))
         (host_calls p ++ [(socket, snd (sockaddr_to_wasi addr addrlen))]).
Proof.
  destruct (Z.eq_dec (fst (sockaddr_to_wasi addr addrlen)) 0) as [Hd|Hd].
  - destruct (Z.eq_dec
                (fst (__wasi_sock_bind socket (snd (sockaddr_to_wasi addr addrlen)) (host p)))
                0) as [Hh|Hh].
    + rewrite bind_success by assumption. intros _. auto.
    + rewrite bind_host_error by assumption. discriminate.
  - rewrite bind_decode_error by assumption. discriminate.
Qed.

(** X3. A caller that sees -1 returned finds in [errno] the code of the
    step that failed, a value strictly between 0 and 65536: the decoder's
    code if that was non-zero (and then the host state is the one from
    before), else the host's.  The codes are 16-bit values, as their C
    type has it. *)
Theorem bind_minus_1_inversion socket addr addrlen p :
  fst (bind socket addr addrlen p) = -1 ->
  is_u16 (fst (sockaddr_to_wasi addr addrlen)) ->
  (fst (sockaddr_to_wasi addr addrlen) = 0 ->
   is_u16 (fst (__wasi_sock_bind socket (snd (sockaddr_to_wasi addr addrlen)) (host p)))) ->
  0 < errno (snd (bind socket addr addrlen p)) < 65536
  /\ ((fst (sockaddr_to_wasi addr addrlen) <> 0
       /\ errno (snd (bind socket addr addrlen p)) = fst (sockaddr_to_wasi addr addrlen)
       /\ host (snd (bind socket addr addrlen p)) = host p)
      \/
      (fst (sockaddr_to_wasi addr addrlen) = 0
       /\ fst (__wasi_sock_bind socket (snd (sockaddr_to_wasi addr addrlen)) (host p)) <> 0
       /\ errno (snd (bind socket addr addrlen p))
          = fst (__wasi_sock_bind socket (snd (sockaddr_to_wasi addr addrlen)) (host p)))).
Proof.
  destruct (Z.eq_dec (fst (sockaddr_to_wasi addr addrlen)) 0) as [Hd|Hd].
  - destruct (Z.eq_dec
                (fst (__wasi_sock_bind socket (snd (sockaddr_to_wasi addr addrlen)) (host p)))
                0) as [Hh|Hh].
    + rewrite bind_success by assumption. discriminate.
    + rewrite bind_host_error by assumption. intros _ _ Hu.
      specialize (Hu Hd). cbn. rewrite to_errno_u16 by exact Hu.
      unfold is_u16 in Hu. split; [lia|]. right. auto.
  - rewrite bind_decode_error by assumption. intros _ Hu _.
    cbn. rewrite to_errno_u16 by exact Hu.
    unfold is_u16 in Hu. split; [lia|]. left. auto.
Qed.

(** X4. [bind] never reads [errno]: started with any other value in
    [errno], it returns the same value, asks the host the same and leaves
    the host in the same state; the final [errno] is the new initial value
    when 0 is returned and does not depend on it otherwise. *)
Theorem bind_ignores_initial_errno socket addr addrlen p e0 :
  fst (bind socket addr addrlen (set_errno e0 p)) = fst (bind socket addr addrlen p)
  /\ host (snd (bind socket addr addrlen (set_errno e0 p)))
     = host (snd (bind socket addr addrlen p))
  /\ host_calls (snd (bind socket addr addrlen (set_errno e0 p)))
     = host_calls (snd (bind socket addr addrlen p))
  /\ errno (snd (bind socket addr addrlen (set_errno e0 p)))
     = (if fst (bind socket addr addrlen p) =? 0
        then e0
        else errno (snd (bind socket addr addrlen p))).
Proof.
  unfold Socket.bind, set_errno.
  destruct (sockaddr_to_wasi addr addrlen) as [e a].
  destruct (negb (e =? 0)); cbn; [repeat split; reflexivity|].
  destruct (__wasi_sock_bind socket a (host p)) as [e' h].
  destruct (negb (e' =? 0)); cbn; repeat split; reflexivity.
Qed.

(** *** Calls in sequence *)

Lemma bind_each_app pre post p :
  bind_each (pre ++ post) p
  = (fst (bind_each pre p) ++ fst (bind_each post (snd (bind_each pre p))),
     snd (bind_each post (snd (bind_each pre p)))).
Proof.
  revert p. induction pre as [|[[socket addr] addrlen] pre IH]; intros p.
  - cbn. destruct (bind_each post p); reflexivity.
  - cbn [app Socket.bind_each].
    destruct (bind socket addr addrlen p) as [r p1].
    rewrite IH.
    destruct (bind_each pre p1) as [rs p2]. cbn.
    reflexivity.
Qed.

Lemma bind_zero_errno socket addr addrlen p :
  fst (bind socket addr addrlen p) = 0 ->
  errno (snd (bind socket addr addrlen p)) = errno p.
Proof.
  unfold Socket.bind.
  destruct (sockaddr_to_wasi addr addrlen) as [e a].
  destruct (negb (e =? 0)); cbn; [discriminate|].
  destruct (__wasi_sock_bind socket a (host p)) as [e' h].
  destruct (negb (e' =? 0)); cbn; [discriminate|reflexivity].
Qed.

Lemma bind_each_all_zero calls :
  forall p,
    Forall (fun r => r = 0) (fst (bind_each calls p)) ->
    errno (snd (bind_each calls p)) = errno p.
Proof.
  induction calls as [|[[socket addr] addrlen] calls IH]; intros p; [reflexivity|].
  cbn [Socket.bind_each].
  pose proof (bind_zero_errno socket addr addrlen p) as Hz.
  destruct (bind socket addr addrlen p) as [r p1].
  specialize (IH p1).
  destruct (bind_each calls p1) as [rs p2]. cbn in *.
  intros Hall. inversion Hall as [|? ? Hr Hrs]; subst.
  rewrite IH by exact Hrs. apply Hz. reflexivity.
Qed.

(** X5. Over any sequence of calls, one value is returned per call, each
    0 or -1, and the host sees exactly the calls whose address decoded,
    in the order they were made, each with its own handle and decoded
    address; calls whose address did not decode leave no trace there. *)
Theorem bind_each_host_calls calls p :
  length (fst (bind_each calls p)) = length calls
  /\ Forall (fun r => r = 0 \/ r = -1) (fst (bind_each calls p))
  /\ host_calls (snd (bind_each calls p))
     = host_calls p
         ++ flat_map
              (fun c : Z * sockaddr * Z =>
                 if fst (sockaddr_to_wasi (snd (fst c)) (snd c)) =? 0
                 then [(fst (fst c), snd (sockaddr_to_wasi (snd (fst c)) (snd c)))]
                 else [])
              calls.
Proof.
  revert p. induction calls as [|[[socket addr] addrlen] calls IH]; intros p.
  - cbn. rewrite app_nil_r. auto.
  - cbn [Socket.bind_each flat_map fst snd].
    pose proof (bind_return_and_host_interaction_aux socket addr addrlen p)
      as (Hret & Hcalls).
    destruct (bind socket addr addrlen p) as [r p1].
    destruct (IH p1) as (Hlen & Hall & Hlog).
    destruct (bind_each calls p1) as [rs p2]. cbn in *.
    split; [congruence|]. split; [constructor; assumption|].
    rewrite Hlog, Hcalls, <- app_assoc. reflexivity.
Qed.

(** X6. Calls that return 0 never disturb [errno]: if every call of a
    later stretch returns 0, [errno] after it is what the earlier calls
    left, so the code of the most recent failing call stays readable. *)
Theorem bind_each_errno_stable pre post p :
  Forall (fun r => r = 0) (fst (bind_each post (snd (bind_each pre p)))) ->
  errno (snd (bind_each (pre ++ post) p)) = errno (snd (bind_each pre p)).
Proof.
  intros Hall. rewrite bind_each_app. cbn [snd].
  apply bind_each_all_zero, Hall.
Qed.

End BindOutcome.

(** ** Instances of the outcome theorems on the fake host *)

Section OutcomeInstances.
Import CInt Socket AddressCodec FakeHost.

Lemma bind_zero_inversion_witness :
  fst (FakeHost.bind 7 ipv4_buffer 8 stale_errno_process) = 0
  /\ (fst (FakeHost.sockaddr_to_wasi ipv4_buffer 8) = 0
      /\ fst (sock_bind EADDRINUSE 7
                (snd (FakeHost.sockaddr_to_wasi ipv4_buffer 8))
                (host stale_errno_process)) = 0
      /\ snd (FakeHost.bind 7 ipv4_buffer 8 stale_errno_process)
         = mkProcess
             (errno stale_errno_process)
             (snd (sock_bind EADDRINUSE 7
                     (snd (FakeHost.sockaddr_to_wasi ipv4_buffer 8))
                     (host stale_errno_process)))
             (host_calls stale_errno_process
                ++ [(7, snd (FakeHost.sockaddr_to_wasi ipv4_buffer 8))])).
Proof.
  split.
  - vm_compute. reflexivity.
  - apply (bind_zero_inversion FakeHost.sockaddr_to_wasi (sock_bind EADDRINUSE)
             7 ipv4_buffer 8 stale_errno_process).
    vm_compute. reflexivity.
Defined.

Lemma bind_minus_1_inversion_witness :
  0 < errno (snd (FakeHost.bind 7 ipv4_buffer 8 bound_process)) < 65536
  /\ ((fst (FakeHost.sockaddr_to_wasi ipv4_buffer 8) <> 0
       /\ errno (snd (FakeHost.bind 7 ipv4_buffer 8 bound_process))
          = fst (FakeHost.sockaddr_to_wasi ipv4_buffer 8)
       /\ host (snd (FakeHost.bind 7 ipv4_buffer 8 bound_process))
          = host bound_process)
      \/
      (fst (FakeHost.sockaddr_to_wasi ipv4_buffer 8) = 0
       /\ fst (sock_bind EADDRINUSE 7
                 (snd (FakeHost.sockaddr_to_wasi ipv4_buffer 8))
                 (host bound_process)) <> 0
       /\ errno (snd (FakeHost.bind 7 ipv4_buffer 8 bound_process))
          = fst (sock_bind EADDRINUSE 7
                   (snd (FakeHost.sockaddr_to_wasi ipv4_buffer 8))
                   (host bound_process)))).
Proof.
  apply (bind_minus_1_inversion FakeHost.sockaddr_to_wasi (sock_bind EADDRINUSE)
           7 ipv4_buffer 8 bound_process).
  - vm_compute. reflexivity.
  - unfold is_u16. split; vm_compute; [discriminate | reflexivity].
  - intros _. unfold is_u16. split; vm_compute; [discriminate | reflexivity].
Defined.

Lemma bind_each_errno_stable_witness :
  fst (Socket.bind_each FakeHost.sockaddr_to_wasi (sock_bind EADDRINUSE)
         ([(7, ipv6_tagged_ipv4_buffer, 8)] ++ [(7, ipv4_buffer, 8)])
         fresh_process)
  = [-1; 0]
  /\ errno (snd (Socket.bind_each FakeHost.sockaddr_to_wasi (sock_bind EADDRINUSE)
                   ([(7, ipv6_tagged_ipv4_buffer, 8)] ++ [(7, ipv4_buffer, 8)])
                   fresh_process))
     = errno (snd (Socket.bind_each FakeHost.sockaddr_to_wasi (sock_bind EADDRINUSE)
                     [(7, ipv6_tagged_ipv4_buffer, 8)] fresh_process)).
Proof.
  split.
  - vm_compute. reflexivity.
  - apply (bind_each_errno_stable FakeHost.sockaddr_to_wasi (sock_bind EADDRINUSE)
             [(7, ipv6_tagged_ipv4_buffer, 8)] [(7, ipv4_buffer, 8)]
             fresh_process).
    vm_compute. repeat constructor.
Defined.

End OutcomeInstances.
